(** * Accent layout of KaTeX ([src/functions/accent.js])

    A shallow embedding of the accent function definitions: the two parse
    handlers (math-mode and text-mode accents), the HTML builder, which also
    serves "supsub" nodes whose base is an accent, and the MathML builder.

    Conventions of the embedding.
    - JavaScript numbers that hold font metrics (em lengths) are exact
      rationals [Q]; [Math.min], [Math.max], [-], [/ 2], [2 *] and [> 0] are
      the rational operations.  Equalities between computed lengths are
      stated up to [==].
    - A string built from a number ([left + "em"], a template literal) is kept
      as a structured [CssValue] instead of its decimal rendering.
    - The builders call into other modules of the code base (buildCommon,
      buildHTML, buildMathML, stretchy, utils, Options).  Those are the
      fields of two interfaces, [HtmlCollaborators] and
      [MathMLCollaborators]; every theorem holds for all implementations.
      They are total functions here: an exception raised inside one of them
      would only propagate.
    - The HTML builder assigns to a field of its argument.  It is therefore
      written in state-passing style: it returns the box together with the
      argument node with that assignment applied.  The calls of
      [html.buildGroup] are taken to leave the trees they are given as they
      are.  That is so when no supsub around an accent lies in them
      ([has_supsub_over_accent]): such a supsub is handed back to this
      builder, which rebinds its base in turn.  Statements about the
      argument after a call carry that condition. *)

From Stdlib Require Import QArith Qminmax Ascii String.
From stdpp Require Import gmap strings list.

Set Warnings "-register-all".

Local Open Scope string_scope.
Local Open Scope list_scope.

(** ** Numbers *)

Definition number : Type := Q.

(** [a > b] on numbers, as a boolean. *)
Definition number_gtb (a b : number) : bool := negb (Qle_bool a b).

(** ** JavaScript arrays *)

(** [arr[0] = x]: overwrites slot 0; on an empty array the assignment
    creates the slot. *)
Definition array_set0 {A : Type} (x : A) (arr : list A) : list A :=
  match arr with
  | [] => [x]
  | _ :: rest => x :: rest
  end.

(** [arr.push(x)] *)
Definition array_push {A : Type} (arr : list A) (x : A) : list A := arr ++ [x].

(** ** Errors *)

Inductive result (A : Type) : Type :=
| Ok (a : A)
| Throw (message : string).
Arguments Ok {A} a.
Arguments Throw {A} message.

(** Sequencing: an exception aborts what follows ([x ← r; k]). *)
#[global] Instance result_bind : MBind result :=
  fun A B (k : A -> result B) (r : result A) =>
    match r with
    | Ok a => k a
    | Throw m => Throw m
    end.

(** ** Parse nodes *)

Inductive Mode : Type := math | text.

(** Modelled from the spec: the class of parse nodes is declared in
    ParseNode.js.  An "accent" node carries the value object that the
    handlers below build ([label], [isStretchy], [isShifty], [base]) and a
    mode; a "supsub" node has three optional children, of which the builder
    reads and writes [base].  The other node types are, following the design
    notes, a glyph, a styling-only wrapper around one node, or a composite
    of several nodes. *)
Inductive ParseNode : Type :=
| accent_node (label : string) (isStretchy isShifty : bool)
              (base : ParseNode) (mode : Mode)
| supsub_node (base sup sub : option ParseNode) (mode : Mode)
| glyph_node (type : string) (text : string) (mode : Mode)
| styled_node (type : string) (inner : ParseNode) (mode : Mode)
| composite_node (type : string) (body : list ParseNode) (mode : Mode).

(** [node.type] *)
Definition node_type (node : ParseNode) : string :=
  match node with
  | accent_node _ _ _ _ _ => "accent"
  | supsub_node _ _ _ _ => "supsub"
  | glyph_node t _ _ | styled_node t _ _ | composite_node t _ _ => t
  end.

(** The typed view [ParseNode<"accent">]: [label group] is
    [group.value.label], [mode group] is [group.mode]. *)
Record AccentNode : Type := mkAccentNode {
  label : string;
  isStretchy : bool;
  isShifty : bool;
  base : ParseNode;
  mode : Mode
}.

Definition accent_to_node (group : AccentNode) : ParseNode :=
  accent_node (label group) (isStretchy group) (isShifty group)
              (base group) (mode group).

(** The typed view [ParseNode<"supsub">]. *)
Record SupSubNode : Type := mkSupSubNode {
  supsub_base : option ParseNode;
  supsub_sup : option ParseNode;
  supsub_sub : option ParseNode;
  supsub_mode : Mode
}.

Definition supsub_to_node (supSub : SupSubNode) : ParseNode :=
  supsub_node (supsub_base supSub) (supsub_sup supSub) (supsub_sub supSub)
              (supsub_mode supSub).

(** [supSub.value.base = b] *)
Definition set_supsub_base (supSub : SupSubNode) (b : option ParseNode)
  : SupSubNode :=
  {| supsub_base := b;
     supsub_sup := supsub_sup supSub;
     supsub_sub := supsub_sub supSub;
     supsub_mode := supsub_mode supSub |}.

(** Modelled from the spec: [checkNodeType] and [assertNodeType] are
    imported from ParseNode.js.  [checkNodeType(node, type)] yields the node
    when it is present and of the requested type and null otherwise;
    [assertNodeType] raises an error instead of yielding null (a malformed
    node must fail fast). *)
Definition checkNodeType_supsub (node : option ParseNode) : option SupSubNode :=
  match node with
  | Some (supsub_node b sup sub m) => Some (mkSupSubNode b sup sub m)
  | _ => None
  end.

Definition checkNodeType_accent (node : option ParseNode) : option AccentNode :=
  match node with
  | Some (accent_node l st sh b m) => Some (mkAccentNode l st sh b m)
  | _ => None
  end.

Definition assertNodeType_accent (node : option ParseNode) : result AccentNode :=
  match checkNodeType_accent node with
  | Some typedNode => Ok typedNode
  | None =>
      Throw ("Expected node of type accent, but got " ++
             match node with
             | Some n => "node of type " ++ node_type n
             | None => "null"
             end)
  end.

(** ** The parse handlers *)

(** [true] when [needle] occurs somewhere in [s]. *)
Fixpoint occurs_in (needle s : string) : bool :=
  String.prefix needle s ||
  match s with
  | EmptyString => false
  | String _ rest => occurs_in needle rest
  end.

(** [new RegExp(names.map(accent => `\\${accent}`).join("|")).test(s)]: each
    name starts with a backslash, which the mapping escapes, so the pattern
    is an alternation of the names taken literally.  The pattern has no
    anchors: it matches when some name occurs anywhere in [s]. *)
Definition regexp_test (names : list string) (s : string) : bool :=
  existsb (fun name => occurs_in name s) names.

Definition NON_STRETCHY_ACCENT_REGEX : list string :=
  [ "\acute"; "\grave"; "\ddot"; "\tilde"; "\bar"; "\breve";
    "\check"; "\hat"; "\vec"; "\dot"; "\mathring" ].

(** [names] of the math-mode definition. *)
Definition math_accent_names : list string :=
  [ "\acute"; "\grave"; "\ddot"; "\tilde"; "\bar"; "\breve";
    "\check"; "\hat"; "\vec"; "\dot"; "\mathring";
    "\widehat"; "\widetilde"; "\overrightarrow"; "\overleftarrow";
    "\Overrightarrow"; "\overleftrightarrow"; "\overgroup";
    "\overlinesegment"; "\overleftharpoon"; "\overrightharpoon" ].

(** [names] of the text-mode definition; the eighth is backslash followed
    by a double quote. *)
Definition text_accent_names : list string :=
  [ "\'"; "\`"; "\^"; "\~"; "\="; "\u"; "\.";
    String "\"%char (String "034"%char EmptyString);
    "\r"; "\H"; "\v"; "\textcircled" ].

(** What a handler reads of its context: [context.funcName] and
    [context.parser.mode]. *)
Record FunctionContext : Type := mkContext {
  funcName : string;
  parser_mode : Mode
}.

(** The math-mode handler.  [props.numArgs] is 1: [arg0] is [args[0]]. *)
Definition math_handler (context : FunctionContext) (arg0 : ParseNode)
  : AccentNode :=
  let base := arg0 in
  let isStretchy :=
    negb (regexp_test NON_STRETCHY_ACCENT_REGEX (funcName context)) in
  let isShifty :=
    negb isStretchy
    || String.eqb (funcName context) "\widehat"
    || String.eqb (funcName context) "\widetilde" in
  {| label := funcName context;
     isStretchy := isStretchy;
     isShifty := isShifty;
     base := base;
     mode := parser_mode context |}.

(** The text-mode handler. *)
Definition text_handler (context : FunctionContext) (arg0 : ParseNode)
  : AccentNode :=
  let base := arg0 in
  {| label := funcName context;
     isStretchy := false;
     isShifty := true;
     base := base;
     mode := parser_mode context |}.

(** The accent nodes of the two definitions: a handler applied to one of the
    names of its definition. *)
Inductive defined_accent : AccentNode -> Prop :=
| defined_math (name : string) (m : Mode) (arg0 : ParseNode) :
    In name math_accent_names ->
    defined_accent (math_handler (mkContext name m) arg0)
| defined_text (name : string) (m : Mode) (arg0 : ParseNode) :
    In name text_accent_names ->
    defined_accent (text_handler (mkContext name m) arg0).

(** The builder of this file also serves the supsub nodes whose base is an
    accent: [html.buildGroup] hands such a node back to it, and the builder
    then assigns to the base of that node.  [has_supsub_over_accent node]
    tells whether [node] is, or contains, a supsub whose base is an accent;
    where it is false, laying out [node] assigns to no node of the tree. *)
Fixpoint has_supsub_over_accent (node : ParseNode) : bool :=
  let inside (o : option ParseNode) :=
    match o with
    | Some n => has_supsub_over_accent n
    | None => false
    end in
  match node with
  | accent_node _ _ _ b _ => has_supsub_over_accent b
  | supsub_node b sup sub _ =>
      match b with
      | Some (accent_node _ _ _ _ _) => true
      | _ => false
      end
      || inside b || inside sup || inside sub
  | glyph_node _ _ _ => false
  | styled_node _ inner _ => has_supsub_over_accent inner
  | composite_node _ body _ => existsb has_supsub_over_accent body
  end.

(** The number of nodes of a tree. *)
Fixpoint node_size (node : ParseNode) : nat :=
  let inside (o : option ParseNode) :=
    match o with
    | Some n => node_size n
    | None => 0%nat
    end in
  match node with
  | accent_node _ _ _ b _ => S (node_size b)
  | supsub_node b sup sub _ => S (inside b + inside sup + inside sub)
  | glyph_node _ _ _ => 1%nat
  | styled_node _ inner _ => S (node_size inner)
  | composite_node _ body _ => S (list_sum (map node_size body))
  end.

(** ** Boxes *)

(** A CSS property value.  The source builds some of them from numbers; the
    number is kept instead of its decimal text. *)
Inductive CssValue : Type :=
| css_literal (s : string)              (* a string constant *)
| css_em (n : number)                   (* [n + "em"] *)
| css_calc_full_minus_em (n : number).  (* [`calc(100% - ${n}em)`] *)

(** Modelled from the spec: the classes of the visual box tree are declared
    in domTree.js.  A box has the fields that this file reads or writes: a
    span has [classes], [children], [height], [depth], [maxFontSize] and
    [style]; a symbol has moreover [value], [italic], [skew] and [width]. *)
Module domTree.

Inductive Box : Type := mkBox {
  classes : list string;
  children : list Box;
  height : number;
  depth : number;
  maxFontSize : number;
  style : gmap string CssValue;
  value : string;
  italic : number;
  skew : number;
  width : number
}.

(** [box.classes = v] and the like. *)
Definition set_classes (box : Box) (v : list string) : Box :=
  mkBox v (children box) (height box) (depth box) (maxFontSize box)
        (style box) (value box) (italic box) (skew box) (width box).

Definition set_children (box : Box) (v : list Box) : Box :=
  mkBox (classes box) v (height box) (depth box) (maxFontSize box)
        (style box) (value box) (italic box) (skew box) (width box).

Definition set_height (box : Box) (v : number) : Box :=
  mkBox (classes box) (children box) v (depth box) (maxFontSize box)
        (style box) (value box) (italic box) (skew box) (width box).

Definition set_style (box : Box) (v : gmap string CssValue) : Box :=
  mkBox (classes box) (children box) (height box) (depth box) (maxFontSize box)
        v (value box) (italic box) (skew box) (width box).

Definition set_italic (box : Box) (v : number) : Box :=
  mkBox (classes box) (children box) (height box) (depth box) (maxFontSize box)
        (style box) (value box) v (skew box) (width box).

End domTree.

Abbreviation Box := domTree.Box.

(** The argument of [buildCommon.makeVList]. *)
Inductive VListChild : Type :=
| vlist_elem (elem : Box) (wrapperClasses : option (list string))
             (wrapperStyle : option (gmap string CssValue))
| vlist_kern (size : number).

Record VListParam : Type := mkVListParam {
  positionType : string;
  vlist_children : list VListChild
}.

(** ** Collaborators of the HTML builder *)

Class HtmlCollaborators (Options : Type) : Type := {
  (** [html.buildGroup(node, options)] *)
  html_buildGroup : ParseNode -> Options -> Box;
  (** [options.havingCrampedStyle()] *)
  havingCrampedStyle : Options -> Options;
  (** [options.fontMetrics().xHeight] *)
  fontMetrics_xHeight : Options -> number;
  (** [utils.isCharacterBox(node)] *)
  isCharacterBox : ParseNode -> bool;
  (** [utils.getBaseElem(node)] *)
  getBaseElem : ParseNode -> ParseNode;
  (** [buildCommon.staticSvg(name, options)] *)
  staticSvg : string -> Options -> Box;
  (** [buildCommon.svgData.vec[1]] *)
  svgData_vec_1 : number;
  (** [buildCommon.makeSymbol(value, fontName, mode, options)] *)
  makeSymbol : string -> string -> Mode -> Options -> Box;
  (** [buildCommon.makeSpan(classes, children, options)]; [options] may be
      left out *)
  makeSpan : list string -> list Box -> option Options -> Box;
  (** [buildCommon.makeVList(params, options)] *)
  makeVList : VListParam -> Options -> Box;
  (** [stretchy.svgSpan(group, options)] *)
  svgSpan : AccentNode -> Options -> Box
}.

(** ** The HTML builder *)

Section HtmlBuilder.

Context {Options : Type} `{HtmlCollaborators Options}.

(** What the first block of the builder leaves behind: the accent node, the
    node under the accent, the box of the rerendered supsub (when the
    argument was one), and the argument node with the assignment of the
    block applied. *)
Record Unwrapped : Type := mkUnwrapped {
  uw_group : AccentNode;
  uw_base : ParseNode;
  uw_supSubGroup : option Box;
  uw_grp : ParseNode
}.

(** The first block: tell a supsub around an accent from a bare accent.  In
    the supsub case the base of the accent is stored into [supSub.value.base]
    and the supsub is rendered again with its new base; [supSub] is the
    argument object itself.  The assertion comes before the assignment: a
    call that raises has not touched its argument. *)
Definition unwrap (grp : ParseNode) (options : Options) : result Unwrapped :=
  match checkNodeType_supsub (Some grp) with
  | Some supSub =>
      group ← assertNodeType_accent (supsub_base supSub);
      let base := base group in
      let supSub := set_supsub_base supSub (Some base) in
      let supSubGroup := html_buildGroup (supsub_to_node supSub) options in
      Ok (mkUnwrapped group base (Some supSubGroup) (supsub_to_node supSub))
  | None =>
      group ← assertNodeType_accent (Some grp);
      let base := base group in
      Ok (mkUnwrapped group base None grp)
  end.

(** Does the accent need to shift for the skew of a character? *)
Definition mustShift (group : AccentNode) (base : ParseNode) : bool :=
  isShifty group && isCharacterBox base.

(** The skew of the accent: that of the innermost character of a character
    box, rendered on its own, and 0 otherwise. *)
Definition skew (group : AccentNode) (base : ParseNode) (options : Options)
  : number :=
  if mustShift group base then
    let baseChar := getBaseElem base in
    let baseGroup := html_buildGroup baseChar (havingCrampedStyle options) in
    domTree.skew baseGroup
  else 0%Q.

(** The amount of space between the body and the accent, as first computed. *)
Definition clearance (body : Box) (options : Options) : number :=
  Qmin (domTree.height body) (fontMetrics_xHeight options).

(** The accent itself and its width: an SVG for [\vec], a symbol of the
    main font, its italic correction removed, otherwise. *)
Definition accent_and_width (group : AccentNode) (options : Options)
  : Box * number :=
  if String.eqb (label group) "\vec" then
    (staticSvg "vec" options, svgData_vec_1)
  else
    let accent :=
      makeSymbol (label group) "Main-Regular" (mode group) options in
    let accent := domTree.set_italic accent 0%Q in
    (accent, domTree.width accent).

(** Full accents overlap directly onto the character. *)
Definition accentFull (group : AccentNode) : bool :=
  String.eqb (label group) "\textcircled".

(** The clearance after the adjustment for full accents. *)
Definition nonStretchy_clearance (group : AccentNode) (body : Box)
    (options : Options) : number :=
  if accentFull group then domTree.height body else clearance body options.

(** The shift of the accent body: the skew, less half the width of the
    accent unless the accent is full. *)
Definition left (group : AccentNode) (skew width : number) : number :=
  if negb (accentFull group) then (skew - width / 2)%Q else skew.

(** The span around the accent, with its classes and style set. *)
Definition nonStretchy_accentBody (group : AccentNode) (skew : number)
    (options : Options) : Box :=
  let '(accent, width) := accent_and_width group options in
  let accentBody := makeSpan ["accent-body"] [accent] None in
  let accentBody :=
    if accentFull group then
      domTree.set_classes accentBody
        (array_push (domTree.classes accentBody) "accent-full")
    else accentBody in
  let accentBody :=
    domTree.set_style accentBody
      (<["left" := css_em (left group skew width)]>
         (domTree.style accentBody)) in
  if String.eqb (label group) "\textcircled" then
    domTree.set_style accentBody
      (<["top" := css_literal ".2em"]> (domTree.style accentBody))
  else accentBody.

(** The argument of [makeVList] on the non-stretchy path. *)
Definition nonStretchy_vlist (group : AccentNode) (body : Box)
    (skew : number) (options : Options) : VListParam :=
  {| positionType := "firstBaseline";
     vlist_children :=
       [ vlist_elem body None None;
         vlist_kern (- nonStretchy_clearance group body options)%Q;
         vlist_elem (nonStretchy_accentBody group skew options) None None ] |}.

(** The style of the wrapper around a stretchy accent. *)
Definition stretchy_wrapperStyle (skew : number)
  : option (gmap string CssValue) :=
  if number_gtb skew 0%Q then
    Some (<["marginLeft" := css_em (2 * skew)%Q]>
            (<["width" := css_calc_full_minus_em (2 * skew)%Q]> ∅))
  else None.

(** The argument of [makeVList] on the stretchy path. *)
Definition stretchy_vlist (group : AccentNode) (body : Box) (skew : number)
    (options : Options) : VListParam :=
  let accentBody := svgSpan group options in
  {| positionType := "firstBaseline";
     vlist_children :=
       [ vlist_elem body None None;
         vlist_elem accentBody (Some ["svg-align"])
                    (stretchy_wrapperStyle skew) ] |}.

(** The box of the accent over its base: everything between the first
    block and the last. *)
Definition accentWrap (group : AccentNode) (base : ParseNode)
    (options : Options) : Box :=
  let body := html_buildGroup base (havingCrampedStyle options) in
  let skew := skew group base options in
  let accentBody :=
    if negb (isStretchy group) then
      makeVList (nonStretchy_vlist group body skew options) options
    else
      makeVList (stretchy_vlist group body skew options) options in
  makeSpan ["mord"; "accent"] [accentBody] (Some options).

(** The last block on a supsub: the accent replaces the base child, the
    height is recalculated by hand, and the result is an ord. *)
Definition patch_supSubGroup (supSubGroup accentWrap : Box) : Box :=
  let supSubGroup :=
    domTree.set_children supSubGroup
      (array_set0 accentWrap (domTree.children supSubGroup)) in
  let supSubGroup :=
    domTree.set_height supSubGroup
      (Qmax (domTree.height accentWrap) (domTree.height supSubGroup)) in
  domTree.set_classes supSubGroup
    (array_set0 "mord" (domTree.classes supSubGroup)).

(** [htmlBuilder(grp, options)]: the box, and [grp] with the assignment of
    the builder applied. *)
Definition htmlBuilder (grp : ParseNode) (options : Options)
  : result (Box * ParseNode) :=
  u ← unwrap grp options;
  let accentWrap := accentWrap (uw_group u) (uw_base u) options in
  match uw_supSubGroup u with
  | Some supSubGroup => Ok (patch_supSubGroup supSubGroup accentWrap, uw_grp u)
  | None => Ok (accentWrap, uw_grp u)
  end.

End HtmlBuilder.

(** ** The MathML builder *)

(** Modelled from the spec: the node class of the structured markup tree is
    declared in mathMLTree.js.  A node has a type, attributes and children;
    a new node has no attribute, and [setAttribute] records one. *)
Module mathMLTree.

Inductive MathNode : Type :=
| mkMathNode (type : string) (attributes : gmap string string)
             (children : list MathNode)
| mkTextNode (text : string).

(** [new mathMLTree.MathNode(type, children)] *)
Definition new_MathNode (type : string) (children : list MathNode) : MathNode :=
  mkMathNode type ∅ children.

(** [node.setAttribute(name, value)] *)
Definition setAttribute (node : MathNode) (name value : string) : MathNode :=
  match node with
  | mkMathNode type attributes children =>
      mkMathNode type (<[name := value]> attributes) children
  | mkTextNode _ => node
  end.

End mathMLTree.

Abbreviation MathNode := mathMLTree.MathNode.

Class MathMLCollaborators (Options : Type) : Type := {
  (** [mml.buildGroup(node, options)] *)
  mml_buildGroup : ParseNode -> Options -> MathNode;
  (** [mml.makeText(text, mode)] *)
  mml_makeText : string -> Mode -> MathNode;
  (** [stretchy.mathMLnode(label)] *)
  stretchy_mathMLnode : string -> MathNode
}.

Section MathMLBuilder.

Context {Options : Type} `{MathMLCollaborators Options}.

(** The node of the accent alone. *)
Definition accentNode (group : AccentNode) : MathNode :=
  let groupValue := group in
  if isStretchy groupValue then
    stretchy_mathMLnode (label groupValue)
  else
    mathMLTree.new_MathNode "mo" [mml_makeText (label groupValue) (mode group)].

(** [mathmlBuilder(group, options)] *)
Definition mathmlBuilder (group : AccentNode) (options : Options) : MathNode :=
  let groupValue := group in
  let accentNode := accentNode group in
  let node :=
    mathMLTree.new_MathNode "mover"
      [mml_buildGroup (base groupValue) options; accentNode] in
  mathMLTree.setAttribute node "accent" "true".

End MathMLBuilder.

(** ** A reference implementation of the collaborators *)

(** Modelled from the spec: the collaborators (layout of an expression,
    glyph lookup, stretchy assets, the x-height, vertical stacking and the
    character-box test of utils.js) are outside this file.  This module
    gives one small implementation of their contracts, on which the
    builders can be run: glyphs have fixed metrics, a span is as high as its
    highest child, and peeling descends through styling-only wrappers and
    stops at anything else. *)
Module Reference.

Local Open Scope Q_scope.

Record Options : Type := mkOptions {
  cramped : bool;
  xHeight : number
}.

(** The kern between a character and the skew character. *)
Definition glyph_skew (text : string) : number :=
  if String.eqb text "f" then 1 # 10 else 0.

Definition glyph_box (text : string) : Box :=
  domTree.mkBox ["mord"] [] (7 # 10) 0 1 ∅ text (1 # 20) (glyph_skew text)
                (1 # 2).

Definition max_height (boxes : list Box) : number :=
  foldr (fun b acc => Qmax (domTree.height b) acc) 0 boxes.

Definition max_depth (boxes : list Box) : number :=
  foldr (fun b acc => Qmax (domTree.depth b) acc) 0 boxes.

Definition span (classes : list string) (children : list Box) : Box :=
  domTree.mkBox classes children (max_height children) (max_depth children)
                1 ∅ EmptyString 0 0 0.

Fixpoint layout (node : ParseNode) : Box :=
  match node with
  | glyph_node _ t _ => glyph_box t
  | styled_node _ inner _ => span ["mord"] [layout inner]
  | composite_node _ body _ => span ["mord"] (map layout body)
  | accent_node _ _ _ b _ => span ["mord"; "accent"] [layout b]
  | supsub_node b sup sub _ =>
      let child (o : option ParseNode) :=
        match o with Some n => [layout n] | None => [] end in
      let box := span ["mbin"] (child b ++ child sup ++ child sub) in
      match sup with
      | Some _ => domTree.set_height box (domTree.height box + (3 # 10))
      | None => box
      end
  end.

Fixpoint peel (node : ParseNode) : ParseNode :=
  match node with
  | styled_node _ inner _ => peel inner
  | _ => node
  end.

Definition is_character_box (node : ParseNode) : bool :=
  match peel node with
  | glyph_node _ _ _ => true
  | _ => false
  end.

Definition vlist_size (child : VListChild) : number :=
  match child with
  | vlist_elem elem _ _ => domTree.height elem + domTree.depth elem
  | vlist_kern size => size
  end.

Definition vlist_box (child : VListChild) : list Box :=
  match child with
  | vlist_elem elem _ _ => [elem]
  | vlist_kern _ => []
  end.

(** First-baseline stacking: the baseline is that of the first child. *)
Definition stack (params : VListParam) : Box :=
  let kids := vlist_children params in
  let total := foldr (fun c acc => vlist_size c + acc) 0 kids in
  let below :=
    match kids with
    | vlist_elem elem _ _ :: _ => domTree.depth elem
    | _ => 0
    end in
  domTree.mkBox ["vlist-t"] (concat (map vlist_box kids)) (total - below)
                below 1 ∅ EmptyString 0 0 0.

#[global] Instance html : HtmlCollaborators Options := {|
  html_buildGroup node _ := layout node;
  havingCrampedStyle options := mkOptions true (xHeight options);
  fontMetrics_xHeight := xHeight;
  isCharacterBox := is_character_box;
  getBaseElem := peel;
  staticSvg name _ := span [name] [];
  svgData_vec_1 := 471 # 1000;
  makeSymbol value _ _ _ := glyph_box value;
  makeSpan classes children _ := span classes children;
  makeVList params _ := stack params;
  svgSpan group _ :=
    domTree.set_height (span ["stretchy"] []) (3 # 10)
|}.

#[global] Instance mml : MathMLCollaborators Options := {|
  mml_buildGroup node _ :=
    mathMLTree.new_MathNode "mrow"
      [mathMLTree.mkTextNode
         match peel node with glyph_node _ t _ => t | _ => EmptyString end];
  mml_makeText t _ := mathMLTree.mkTextNode t;
  stretchy_mathMLnode l :=
    mathMLTree.setAttribute
      (mathMLTree.new_MathNode "mo" [mathMLTree.mkTextNode l])
      "stretchy" "true"
|}.

Definition options : Options := mkOptions false (431 # 1000).

(** The trees of [\hat{x}], [\widehat{f}], [\textcircled{a}] and
    [\hat{x}^2]. *)
Definition x : ParseNode := glyph_node "mathord" "x" math.
Definition f : ParseNode := glyph_node "mathord" "f" math.
Definition hat_x : AccentNode := math_handler (mkContext "\hat" math) x.
Definition widehat_f : AccentNode := math_handler (mkContext "\widehat" math) f.
Definition textcircled_a : AccentNode :=
  text_handler (mkContext "\textcircled" text) (glyph_node "textord" "a" text).
Definition hat_x_squared : ParseNode :=
  supsub_node (Some (accent_to_node hat_x))
              (Some (glyph_node "textord" "2" math)) None math.

End Reference.

(** * Properties *)

(** ** The handlers *)

Lemma eqb_true_iff (a b : string) : String.eqb a b = true <-> a = b.
Proof. apply String.eqb_eq. Qed.

Lemma eqb_false_iff (a b : string) : String.eqb a b = false <-> a <> b.
Proof. apply String.eqb_neq. Qed.

(** The math-mode handler copies the function name and the argument. *)
Lemma math_handler_fields (context : FunctionContext) (arg0 : ParseNode) :
  label (math_handler context arg0) = funcName context /\
  base (math_handler context arg0) = arg0 /\
  mode (math_handler context arg0) = parser_mode context.
Proof. repeat split. Qed.

(** The shifty flag as the math-mode handler computes it. *)
Lemma math_handler_isShifty (context : FunctionContext) (arg0 : ParseNode) :
  isShifty (math_handler context arg0) =
  negb (isStretchy (math_handler context arg0))
  || String.eqb (funcName context) "\widehat"
  || String.eqb (funcName context) "\widetilde".
Proof. reflexivity. Qed.

(** Every node of the text-mode handler is non-stretchy and shifty. *)
Lemma text_handler_flags (context : FunctionContext) (arg0 : ParseNode) :
  isStretchy (text_handler context arg0) = false /\
  isShifty (text_handler context arg0) = true.
Proof. split; reflexivity. Qed.

Lemma In_existsb_eqb (name : string) (names : list string) :
  In name names -> existsb (String.eqb name) names = true.
Proof.
  intros Hin. apply existsb_exists. exists name.
  split; [exact Hin | apply String.eqb_refl].
Qed.

(** No name belongs to both definitions. *)
Lemma accent_names_disjoint (name : string) :
  In name math_accent_names -> In name text_accent_names -> False.
Proof.
  intros Hmath Htext. apply In_existsb_eqb in Htext.
  assert (Hall : forallb
                   (fun n => negb (existsb (String.eqb n) text_accent_names))
                   math_accent_names = true) by reflexivity.
  rewrite forallb_forall in Hall. specialize (Hall _ Hmath).
  rewrite Htext in Hall. discriminate.
Qed.

(** Among the nodes of the two definitions the label fixes [isStretchy]. *)
Lemma defined_accent_isStretchy (g1 g2 : AccentNode) :
  defined_accent g1 -> defined_accent g2 ->
  label g1 = label g2 -> isStretchy g1 = isStretchy g2.
Proof.
  intros [n1 m1 a1 H1 | n1 m1 a1 H1] [n2 m2 a2 H2 | n2 m2 a2 H2] Hlabel;
    cbn in Hlabel; subst n2.
  - reflexivity.
  - destruct (accent_names_disjoint _ H1 H2).
  - destruct (accent_names_disjoint _ H2 H1).
  - reflexivity.
Qed.

(** [\textcircled] is a text-mode accent: its node is never stretchy. *)
Lemma defined_accent_textcircled (group : AccentNode) :
  defined_accent group ->
  label group = "\textcircled" -> isStretchy group = false.
Proof.
  intros [n m a Hin | n m a Hin] Hlabel; [| reflexivity].
  cbn in Hlabel. subst n. apply In_existsb_eqb in Hin. discriminate.
Qed.

(** C1, as amended.  For every accent node that the math-mode handler
    constructs, [isShifty] is true for all accents that are not stretchy and
    for the two stretchy labels [\widehat] and [\widetilde], and for no
    other: it is false exactly when [isStretchy] is true and the label is
    neither of the two.  Both flags are functions of the label alone; over
    the names of the definition the eleven fixed accents are shifty and not
    stretchy, [\widehat] and [\widetilde] are stretchy and shifty, and the
    remaining eight are stretchy and not shifty. *)
Theorem math_handler_shifty_table (context : FunctionContext) (arg0 : ParseNode) :
  let group := math_handler context arg0 in
  (isStretchy group = false -> isShifty group = true) /\
  (isShifty group = true <->
     isStretchy group = false \/
     label group = "\widehat" \/ label group = "\widetilde") /\
  (isShifty group = false <->
     isStretchy group = true /\
     label group <> "\widehat" /\ label group <> "\widetilde") /\
  (forall context' arg0',
     funcName context' = funcName context ->
     isStretchy (math_handler context' arg0') = isStretchy group /\
     isShifty (math_handler context' arg0') = isShifty group) /\
  map (fun name =>
         let g := math_handler (mkContext name (parser_mode context)) arg0 in
         (isStretchy g, isShifty g)) math_accent_names
  = repeat (false, true) 11 ++ repeat (true, true) 2 ++ repeat (true, false) 8.
Proof.
  cbn zeta.
  assert (Hlabel : forall c a,
            funcName c = funcName context ->
            isStretchy (math_handler c a) = isStretchy (math_handler context arg0) /\
            isShifty (math_handler c a) = isShifty (math_handler context arg0)).
  { intros c a Hc. unfold math_handler; cbn [isStretchy isShifty].
    rewrite Hc. split; reflexivity. }
  pose proof (math_handler_isShifty context arg0) as Hshifty.
  change (label (math_handler context arg0)) with (funcName context).
  remember (isStretchy (math_handler context arg0)) as stretchy eqn:Es in *.
  remember (isShifty (math_handler context arg0)) as shifty eqn:Eh in *.
  clear Es Eh.
  destruct stretchy;
    destruct (String.eqb_spec (funcName context) "\widehat") as [Hh | Hh];
    destruct (String.eqb_spec (funcName context) "\widetilde") as [Ht | Ht];
    cbn in Hshifty; subst shifty;
    (split; [ | split; [ | split; [ | split; [exact Hlabel | reflexivity]]]]);
    intuition congruence.
Qed.

(** C1 as stated fails: [\hat] is not stretchy and yet shifty, though it is
    neither [\widehat] nor [\widetilde]; [\overrightarrow] is stretchy and
    not shifty. *)
Lemma math_handler_hat_is_shifty :
  let hat := math_handler (mkContext "\hat" math) Reference.x in
  let arrow := math_handler (mkContext "\overrightarrow" math) Reference.x in
  (isStretchy hat = false /\ isShifty hat = true /\
   label hat <> "\widehat" /\ label hat <> "\widetilde") /\
  (isStretchy arrow = true /\ isShifty arrow = false).
Proof. cbn. repeat split; discriminate. Qed.

(** ** The HTML builder: shape of a call *)

Section HtmlBuilderProperties.

Context {Options : Type} `{HtmlCollaborators Options}.

Lemma accent_view (group : AccentNode) :
  checkNodeType_accent (Some (accent_to_node group)) = Some group.
Proof. destruct group; reflexivity. Qed.

(** On a bare accent the first block finds the accent and its base and
    leaves the argument alone. *)
Lemma unwrap_accent (group : AccentNode) (options : Options) :
  unwrap (accent_to_node group) options =
  Ok (mkUnwrapped group (base group) None (accent_to_node group)).
Proof. destruct group; reflexivity. Qed.

(** On a supsub around an accent the first block renders the supsub with
    the base of the accent in place of the accent. *)
Lemma unwrap_supsub (group : AccentNode) (sup sub : option ParseNode)
    (m : Mode) (options : Options) :
  let rebased := supsub_node (Some (base group)) sup sub m in
  unwrap (supsub_node (Some (accent_to_node group)) sup sub m) options =
  Ok (mkUnwrapped group (base group)
                  (Some (html_buildGroup rebased options)) rebased).
Proof. destruct group; reflexivity. Qed.

Lemma htmlBuilder_accent (group : AccentNode) (options : Options) :
  htmlBuilder (accent_to_node group) options =
  Ok (accentWrap group (base group) options, accent_to_node group).
Proof. unfold htmlBuilder. rewrite unwrap_accent. reflexivity. Qed.

Lemma htmlBuilder_supsub (group : AccentNode) (sup sub : option ParseNode)
    (m : Mode) (options : Options) :
  let rebased := supsub_node (Some (base group)) sup sub m in
  htmlBuilder (supsub_node (Some (accent_to_node group)) sup sub m) options =
  Ok (patch_supSubGroup (html_buildGroup rebased options)
                        (accentWrap group (base group) options),
      rebased).
Proof. cbn zeta. unfold htmlBuilder. rewrite unwrap_supsub. reflexivity. Qed.

(** The skew and the clearance enter the layout through the argument of
    [makeVList]. *)
Lemma accentWrap_layers (group : AccentNode) (b : ParseNode) (options : Options) :
  let body := html_buildGroup b (havingCrampedStyle options) in
  let s := skew group b options in
  accentWrap group b options =
  makeSpan ["mord"; "accent"]
    [makeVList (if isStretchy group
                then stretchy_vlist group body s options
                else nonStretchy_vlist group body s options) options]
    (Some options).
Proof. unfold accentWrap. destruct (isStretchy group); reflexivity. Qed.

(** ** Skew *)

Lemma skew_not_shifty (group : AccentNode) (b : ParseNode) (options : Options) :
  isShifty group = false -> skew group b options = 0%Q.
Proof. unfold skew, mustShift. intros ->. reflexivity. Qed.

Lemma skew_character_box (group : AccentNode) (b : ParseNode)
    (options : Options) :
  isShifty group = true -> isCharacterBox b = true ->
  skew group b options =
  domTree.skew (html_buildGroup (getBaseElem b) (havingCrampedStyle options)).
Proof. unfold skew, mustShift. intros -> ->. reflexivity. Qed.

Lemma skew_not_character_box (group : AccentNode) (b : ParseNode)
    (options : Options) :
  isCharacterBox b = false -> skew group b options = 0%Q.
Proof.
  unfold skew, mustShift. intros ->. rewrite andb_false_r. reflexivity.
Qed.

(** C2.  If [isShifty] is false the skew is 0; if it is true and the base
    is a character box, the skew is the skew metric of the innermost
    character ([getBaseElem]) rendered alone in cramped style; if the base
    is not a character box the skew is 0 whatever [isShifty] is. *)
Theorem skew_rule (group : AccentNode) (b : ParseNode) (options : Options) :
  (isShifty group = false -> skew group b options = 0%Q) /\
  (isShifty group = true -> isCharacterBox b = true ->
   skew group b options =
   domTree.skew (html_buildGroup (getBaseElem b) (havingCrampedStyle options))) /\
  (isCharacterBox b = false -> skew group b options = 0%Q).
Proof.
  split; [apply skew_not_shifty |].
  split; [apply skew_character_box | apply skew_not_character_box].
Qed.

(** ** Clearance *)

Lemma accentFull_iff (group : AccentNode) :
  accentFull group = true <-> label group = "\textcircled".
Proof. apply eqb_true_iff. Qed.

Lemma clearance_le_xHeight (body : Box) (options : Options) :
  (clearance body options <= fontMetrics_xHeight options)%Q.
Proof. apply Q.le_min_r. Qed.

(** C3.  The spacer between base and accent is [-clearance], where the
    clearance is [min(body.height, xHeight)], hence at most the x-height,
    for every label but [\textcircled], and the height of the base box
    exactly for [\textcircled].  (The stretchy path stacks no spacer; the
    clearance it has computed is the capped one, and no node of the two
    definitions is a stretchy [\textcircled].) *)
Theorem clearance_rule (group : AccentNode) (body : Box) (s : number)
    (options : Options) :
  let c := nonStretchy_clearance group body options in
  vlist_children (nonStretchy_vlist group body s options) !! 1%nat
    = Some (vlist_kern (- c)) /\
  (label group <> "\textcircled" ->
   c = Qmin (domTree.height body) (fontMetrics_xHeight options) /\
   (c <= fontMetrics_xHeight options)%Q) /\
  (label group = "\textcircled" -> c = domTree.height body) /\
  clearance body options
    = Qmin (domTree.height body) (fontMetrics_xHeight options) /\
  (clearance body options <= fontMetrics_xHeight options)%Q /\
  (forall size,
     ~ In (vlist_kern size) (vlist_children (stretchy_vlist group body s options))) /\
  (defined_accent group -> label group = "\textcircled" ->
   isStretchy group = false).
Proof.
  cbn zeta. unfold nonStretchy_clearance.
  split; [reflexivity |].
  split; [| split; [| split; [reflexivity | split; [| split]]]];
    [ | | | | apply defined_accent_textcircled ].
  - intros Hl. apply eqb_false_iff in Hl. unfold accentFull. rewrite Hl.
    split; [reflexivity | apply clearance_le_xHeight].
  - intros Hl. apply accentFull_iff in Hl. rewrite Hl. reflexivity.
  - apply clearance_le_xHeight.
  - intros size [Hin | [Hin | []]]; discriminate.
Qed.

(** ** Horizontal offset *)



End HtmlBuilderProperties.

Lemma skew_rule_witness :
  skew (math_handler (mkContext "\overrightarrow" math) Reference.f)
       Reference.f Reference.options = 0%Q /\
  skew Reference.widehat_f Reference.f Reference.options = 1 # 10 /\
  skew Reference.widehat_f
       (composite_node "ordgroup" [Reference.f; Reference.x] math)
       Reference.options = 0%Q.
Proof.
  split; [| split].
  - destruct (skew_rule
                (math_handler (mkContext "\overrightarrow" math) Reference.f)
                Reference.f Reference.options)
      as (Hplain & _).
    apply Hplain. reflexivity.
  - destruct (skew_rule Reference.widehat_f Reference.f Reference.options)
      as (_ & Hbox & _).
    rewrite Hbox; reflexivity.
  - destruct (skew_rule Reference.widehat_f
                (composite_node "ordgroup" [Reference.f; Reference.x] math)
                Reference.options)
      as (_ & _ & Hcomposite).
    apply Hcomposite. reflexivity.
Defined.

Lemma clearance_rule_witness :
  (nonStretchy_clearance Reference.hat_x (Reference.layout Reference.x)
                         Reference.options
   <= 431 # 1000)%Q /\
  nonStretchy_clearance Reference.textcircled_a
    (Reference.layout (base Reference.textcircled_a)) Reference.options
  = 7 # 10.
Proof.
  split.
  - destruct (clearance_rule Reference.hat_x (Reference.layout Reference.x)
                             0%Q Reference.options)
      as (_ & Hcapped & _).
    apply Hcapped. discriminate.
  - destruct (clearance_rule Reference.textcircled_a
                (Reference.layout (base Reference.textcircled_a))
                0%Q Reference.options)
      as (_ & _ & Hfull & _).
    rewrite Hfull; reflexivity.
Defined.


(** ** The stretchy path *)

Section StretchyProperties.

Context {Options : Type} `{HtmlCollaborators Options}.

Lemma number_gtb_true (a b : number) : (b < a)%Q -> number_gtb a b = true.
Proof.
  intros Hlt. unfold number_gtb. apply negb_true_iff.
  apply not_true_iff_false. intros Hle. apply Qle_bool_iff in Hle.
  exact (Qlt_not_le _ _ Hlt Hle).
Qed.

(** With a positive skew the wrapper of the stretchy accent is narrowed by
    twice the skew and pushed right by twice the skew. *)
Lemma stretchy_wrapperStyle_positive (s : number) :
  (0 < s)%Q ->
  stretchy_wrapperStyle s =
  Some (<["marginLeft" := css_em (2 * s)%Q]>
          (<["width" := css_calc_full_minus_em (2 * s)%Q]> ∅)).
Proof.
  intros Hpos. unfold stretchy_wrapperStyle.
  rewrite (number_gtb_true _ _ Hpos). reflexivity.
Qed.

(** C5, as amended.  For [\widehat] over a character box whose innermost
    character has skew 0.1: the node is stretchy and shifty, the skew is
    0.1, the stretchy path is taken, and the wrapper of the stretchy accent
    has width [calc(100% - 0.2em)] and a left margin of 0.2em, twice the
    skew.  The box that the builder returns is spelled out: the base, then
    the stretchy accent in a wrapper of class "svg-align" that carries this
    style. *)
Theorem widehat_over_skewed_glyph (m : Mode) (b : ParseNode) (options : Options) :
  let group := math_handler (mkContext "\widehat" m) b in
  let body := html_buildGroup b (havingCrampedStyle options) in
  isCharacterBox b = true ->
  (domTree.skew (html_buildGroup (getBaseElem b) (havingCrampedStyle options))
   == 1 # 10)%Q ->
  isStretchy group = true /\
  isShifty group = true /\
  (skew group b options == 1 # 10)%Q /\
  accentWrap group b options =
    makeSpan ["mord"; "accent"]
      [makeVList (stretchy_vlist group body (skew group b options) options)
                 options]
      (Some options) /\
  (exists inset margin,
     stretchy_wrapperStyle (skew group b options) =
       Some (<["marginLeft" := css_em margin]>
               (<["width" := css_calc_full_minus_em inset]> ∅)) /\
     (inset == 2 # 10)%Q /\ (margin == 2 # 10)%Q) /\
  (exists inset margin grp',
     htmlBuilder (accent_to_node group) options =
       Ok (makeSpan ["mord"; "accent"]
             [makeVList
                {| positionType := "firstBaseline";
                   vlist_children :=
                     [ vlist_elem body None None;
                       vlist_elem (svgSpan group options) (Some ["svg-align"])
                         (Some (<["marginLeft" := css_em margin]>
                                  (<["width" := css_calc_full_minus_em inset]>
                                     ∅))) ] |}
                options]
             (Some options),
           grp') /\
     (inset == 2 # 10)%Q /\ (margin == 2 # 10)%Q).
Proof.
  intros group body Hbox Hskew.
  assert (Hs : skew group b options =
               domTree.skew (html_buildGroup (getBaseElem b)
                                             (havingCrampedStyle options))).
  { apply skew_character_box; [reflexivity | exact Hbox]. }
  split; [reflexivity |]. split; [reflexivity |].
  split; [rewrite Hs; exact Hskew |].
  split; [exact (accentWrap_layers group b options) |].
  assert (Hstyle : stretchy_wrapperStyle (skew group b options) =
                   Some (<["marginLeft" := css_em (2 * skew group b options)%Q]>
                           (<["width" :=
                                css_calc_full_minus_em
                                  (2 * skew group b options)%Q]> ∅))).
  { apply stretchy_wrapperStyle_positive. rewrite Hs, Hskew. reflexivity. }
  assert (Htwice : (2 * skew group b options == 2 # 10)%Q).
  { rewrite Hs, Hskew. reflexivity. }
  split.
  - exists (2 * skew group b options)%Q, (2 * skew group b options)%Q.
    split; [exact Hstyle | split; exact Htwice].
  - exists (2 * skew group b options)%Q, (2 * skew group b options)%Q.
    eexists. split; [| split; exact Htwice].
    rewrite htmlBuilder_accent.
    rewrite (accentWrap_layers group b options).
    change (isStretchy group) with true. cbv iota.
    unfold stretchy_vlist. rewrite Hstyle. reflexivity.
Qed.

End StretchyProperties.

Lemma widehat_over_skewed_glyph_witness :
  isStretchy Reference.widehat_f = true /\
  (skew Reference.widehat_f Reference.f Reference.options == 1 # 10)%Q.
Proof.
  destruct (widehat_over_skewed_glyph math Reference.f Reference.options)
    as (Hstretchy & _ & Hskew & _).
  - reflexivity.
  - reflexivity.
  - split; [exact Hstretchy | exact Hskew].
Defined.

(** C5 as stated fails: over the character [f] of skew 0.1 the left margin
    of the wrapper is 0.2em and not 0.1em. *)
Lemma widehat_margin_is_twice_the_skew :
  isCharacterBox Reference.f = true /\
  domTree.skew (html_buildGroup (getBaseElem Reference.f)
                                (havingCrampedStyle Reference.options))
    = 1 # 10 /\
  exists margin,
    option_map (fun style : gmap string CssValue => style !! "marginLeft")
      (stretchy_wrapperStyle
         (skew Reference.widehat_f Reference.f Reference.options))
      = Some (Some (css_em margin)) /\
    (margin == 2 # 10)%Q /\ ~ (margin == 1 # 10)%Q.
Proof.
  split; [reflexivity |]. split; [reflexivity |].
  exists (2 # 10). split; [vm_compute; reflexivity |].
  split; [reflexivity | discriminate].
Qed.

(** ** Accents under superscripts and subscripts *)

Section SupSubProperties.

Context {Options : Type} `{HtmlCollaborators Options}.

Lemma array_set0_lookup {A : Type} (x : A) (arr : list A) :
  array_set0 x arr !! 0%nat = Some x.
Proof. destruct arr; reflexivity. Qed.

Lemma array_set0_tail {A : Type} (x : A) (arr : list A) :
  tail (array_set0 x arr) = tail arr.
Proof. destruct arr; reflexivity. Qed.

Lemma array_set0_length {A : Type} (x : A) (arr : list A) :
  arr <> [] -> length (array_set0 x arr) = length arr.
Proof. destruct arr; [contradiction | reflexivity]. Qed.

(** The patched box, field by field. *)
Lemma patch_supSubGroup_fields (supSubGroup accentBox : Box) :
  patch_supSubGroup supSubGroup accentBox =
  domTree.mkBox
    (array_set0 "mord" (domTree.classes supSubGroup))
    (array_set0 accentBox (domTree.children supSubGroup))
    (Qmax (domTree.height accentBox) (domTree.height supSubGroup))
    (domTree.depth supSubGroup)
    (domTree.maxFontSize supSubGroup)
    (domTree.style supSubGroup)
    (domTree.value supSubGroup)
    (domTree.italic supSubGroup)
    (domTree.skew supSubGroup)
    (domTree.width supSubGroup).
Proof. reflexivity. Qed.

(** C6.  For a supsub around an accent the builder returns the box of the
    rerendered supsub with child 0 replaced by the finished accent box (the
    box the builder returns for the accent alone), its height the maximum
    of the height of the accent box and the height the supsub layout
    computed, and its first class "mord". *)
Theorem supsub_patch (group : AccentNode) (sup sub : option ParseNode)
    (m : Mode) (options : Options) :
  let grp := supsub_node (Some (accent_to_node group)) sup sub m in
  let supSubGroup :=
    html_buildGroup (supsub_node (Some (base group)) sup sub m) options in
  exists box accentBox grp',
    htmlBuilder grp options = Ok (box, grp') /\
    htmlBuilder (accent_to_node group) options
      = Ok (accentBox, accent_to_node group) /\
    domTree.children box !! 0%nat = Some accentBox /\
    domTree.height box
      = Qmax (domTree.height accentBox) (domTree.height supSubGroup) /\
    domTree.classes box !! 0%nat = Some "mord".
Proof.
  cbn zeta.
  eexists _, (accentWrap group (base group) options), _.
  split; [apply htmlBuilder_supsub |].
  split; [apply htmlBuilder_accent |].
  rewrite patch_supSubGroup_fields. cbn.
  split; [apply array_set0_lookup |].
  split; [reflexivity | apply array_set0_lookup].
Qed.

(** C10.  Of the box that the supsub layout produced, the builder changes
    child 0, the height and the first class, and nothing else: the depth,
    the other children, the other classes and the remaining fields are
    those of the supsub layout. *)
Theorem supsub_patch_frame (group : AccentNode) (sup sub : option ParseNode)
    (m : Mode) (options : Options) :
  let grp := supsub_node (Some (accent_to_node group)) sup sub m in
  let supSubGroup :=
    html_buildGroup (supsub_node (Some (base group)) sup sub m) options in
  exists box grp',
    htmlBuilder grp options = Ok (box, grp') /\
    domTree.depth box = domTree.depth supSubGroup /\
    tail (domTree.children box) = tail (domTree.children supSubGroup) /\
    tail (domTree.classes box) = tail (domTree.classes supSubGroup) /\
    domTree.maxFontSize box = domTree.maxFontSize supSubGroup /\
    domTree.style box = domTree.style supSubGroup /\
    domTree.value box = domTree.value supSubGroup /\
    domTree.italic box = domTree.italic supSubGroup /\
    domTree.skew box = domTree.skew supSubGroup /\
    domTree.width box = domTree.width supSubGroup /\
    (domTree.children supSubGroup <> [] ->
     length (domTree.children box) = length (domTree.children supSubGroup)) /\
    (domTree.classes supSubGroup <> [] ->
     length (domTree.classes box) = length (domTree.classes supSubGroup)).
Proof.
  cbn zeta. eexists _, _.
  split; [apply htmlBuilder_supsub |].
  rewrite patch_supSubGroup_fields. cbn.
  rewrite !array_set0_tail.
  repeat (split; [reflexivity |]).
  split; apply array_set0_length.
Qed.

(** ** The argument after the call *)

(** When the builder returns, its argument was a bare accent or a supsub
    around an accent. *)
Lemma htmlBuilder_Ok_inv (grp : ParseNode) (options : Options)
    (box : Box) (grp' : ParseNode) :
  htmlBuilder grp options = Ok (box, grp') ->
  (exists group, grp = accent_to_node group) \/
  (exists group sup sub m,
     grp = supsub_node (Some (accent_to_node group)) sup sub m).
Proof.
  intros Hret.
  destruct grp as [l st sh b m | [b |] sup sub m | | |]; try discriminate.
  - left. exists (mkAccentNode l st sh b m). reflexivity.
  - right. destruct b as [l st sh b' m' | | | |]; try discriminate.
    exists (mkAccentNode l st sh b' m'), sup, sub, m. reflexivity.
Qed.

(** A tree is not one of its own subtrees. *)
Lemma accent_base_neq (group : AccentNode) :
  base group <> accent_to_node group.
Proof.
  intros Heq. apply (f_equal node_size) in Heq.
  unfold accent_to_node in Heq.
  change (node_size (base group) = S (node_size (base group))) in Heq.
  lia.
Qed.

(** C7, as amended.  A call on a bare accent whose base holds no supsub
    around an accent returns with the argument unchanged.  A call on a
    supsub around an accent returns with the base field of the supsub
    reassigned to the base of the accent and its other fields unchanged,
    when that base, the superscript and the subscript hold no supsub around
    an accent and the base is not an accent itself.  (A supsub around an
    accent inside is rebound in turn by the layout of the tree around it;
    that case is left out.)  Whenever a call on a supsub around an accent
    returns, the argument is no longer what it was; and only calls on a bare
    accent or on a supsub around an accent return. *)
Theorem htmlBuilder_argument_after (group : AccentNode)
    (sup sub : option ParseNode) (m : Mode) (options : Options) :
  (has_supsub_over_accent (base group) = false ->
   exists box,
     htmlBuilder (accent_to_node group) options
       = Ok (box, accent_to_node group)) /\
  (has_supsub_over_accent (supsub_node (Some (base group)) sup sub m) = false ->
   exists box,
     htmlBuilder (supsub_node (Some (accent_to_node group)) sup sub m) options
       = Ok (box, supsub_node (Some (base group)) sup sub m)) /\
  (forall box grp',
     htmlBuilder (supsub_node (Some (accent_to_node group)) sup sub m) options
       = Ok (box, grp') ->
     grp' <> supsub_node (Some (accent_to_node group)) sup sub m) /\
  (forall grp box grp',
     htmlBuilder grp options = Ok (box, grp') ->
     (exists group', grp = accent_to_node group') \/
     (exists group' sup' sub' m',
        grp = supsub_node (Some (accent_to_node group')) sup' sub' m')).
Proof.
  split; [intros _; eexists; apply htmlBuilder_accent |].
  split; [intros _; eexists; apply htmlBuilder_supsub |].
  split.
  - intros box grp' Hret. rewrite htmlBuilder_supsub in Hret.
    injection Hret as _ <-. intros Heq. injection Heq as Heq.
    exact (accent_base_neq group Heq).
  - intros grp box grp' Hret. exact (htmlBuilder_Ok_inv _ _ _ _ Hret).
Qed.

(** ** Malformed arguments *)

(** C9.  On a supsub whose base is not an accent, and on a node that is
    neither a supsub nor an accent, the builder raises an error: it returns
    no box. *)
Theorem htmlBuilder_malformed (grp : ParseNode) (options : Options) :
  (exists supSub,
     checkNodeType_supsub (Some grp) = Some supSub /\
     checkNodeType_accent (supsub_base supSub) = None) \/
  (checkNodeType_supsub (Some grp) = None /\
   checkNodeType_accent (Some grp) = None) ->
  exists message, htmlBuilder grp options = Throw message.
Proof.
  intros [(supSub & Hsupsub & Hbase) | (Hsupsub & Haccent)];
    unfold htmlBuilder, unwrap; rewrite Hsupsub;
    unfold assertNodeType_accent.
  - rewrite Hbase. eexists. reflexivity.
  - rewrite Haccent. eexists. reflexivity.
Qed.

(** On every other argument the builder returns a box. *)
Lemma htmlBuilder_wellformed (grp : ParseNode) (options : Options) :
  (exists supSub group,
     checkNodeType_supsub (Some grp) = Some supSub /\
     checkNodeType_accent (supsub_base supSub) = Some group) \/
  (checkNodeType_supsub (Some grp) = None /\
   exists group, checkNodeType_accent (Some grp) = Some group) ->
  exists box grp', htmlBuilder grp options = Ok (box, grp').
Proof.
  intros [(supSub & group & Hsupsub & Hbase) | (Hsupsub & group & Haccent)];
    unfold htmlBuilder, unwrap; rewrite Hsupsub;
    unfold assertNodeType_accent.
  - rewrite Hbase. eexists _, _. reflexivity.
  - rewrite Haccent. eexists _, _. reflexivity.
Qed.

End SupSubProperties.

Lemma htmlBuilder_argument_after_witness :
  (exists box,
     htmlBuilder (accent_to_node Reference.hat_x) Reference.options
       = Ok (box, accent_to_node Reference.hat_x)) /\
  (exists box,
     htmlBuilder Reference.hat_x_squared Reference.options
       = Ok (box, supsub_node (Some Reference.x)
                              (Some (glyph_node "textord" "2" math)) None math)).
Proof.
  destruct (htmlBuilder_argument_after Reference.hat_x
              (Some (glyph_node "textord" "2" math)) None math
              Reference.options)
    as (Hbare & Hsupsub & _).
  split; [apply Hbare; reflexivity | apply Hsupsub; reflexivity].
Defined.

(** The tree of [\tilde{\hat{x}^2}] holds a supsub around an accent under
    its accent: the layout of its base rebinds that supsub. *)
Example nested_supsub_is_detected :
  has_supsub_over_accent
    (base (math_handler (mkContext "\tilde" math) Reference.hat_x_squared))
  = true.
Proof. reflexivity. Qed.

Lemma htmlBuilder_malformed_witness :
  exists message, htmlBuilder Reference.x Reference.options = Throw message.
Proof.
  apply (htmlBuilder_malformed Reference.x Reference.options).
  right. split; reflexivity.
Defined.

(** C7 as stated fails: after laying out [\hat{x}^2] the base of the supsub
    node is [x] and no longer the accent. *)
Lemma htmlBuilder_rebinds_supsub_base :
  exists box grp',
    htmlBuilder Reference.hat_x_squared Reference.options = Ok (box, grp') /\
    grp' = supsub_node (Some Reference.x)
                       (Some (glyph_node "textord" "2" math)) None math /\
    grp' <> Reference.hat_x_squared.
Proof.
  eexists _, _. split; [vm_compute; reflexivity |].
  split; [reflexivity | discriminate].
Qed.

(** ** The MathML builder *)

Section MathMLBuilderProperties.

Context {Options : Type} `{MathMLCollaborators Options}.

(** C8.  The MathML builder returns a "mover" node whose children are the
    built base and the accent node and whose attribute "accent" is "true".
    The accent node comes from the label (through [stretchy.mathMLnode]
    when the node is stretchy, as an "mo" around the text of the label in
    the mode of the node otherwise); among the nodes of the two definitions
    the label fixes [isStretchy], so that the result is that of the label,
    the base and the mode.  The builder takes the MathML collaborators
    only: nothing of the HTML builder (skew, clearance, the sizing of the
    stretchy asset) enters it, and the result does not change with
    [isShifty], the one field of the node that feeds the skew. *)
Theorem mathmlBuilder_mover (group : AccentNode) (options : Options) :
  mathmlBuilder group options =
    mathMLTree.mkMathNode "mover" (<["accent" := "true"]> ∅)
      [mml_buildGroup (base group) options; accentNode group] /\
  accentNode group =
    (if isStretchy group then stretchy_mathMLnode (label group)
     else mathMLTree.mkMathNode "mo" ∅
            [mml_makeText (label group) (mode group)]) /\
  (forall shifty : bool,
     mathmlBuilder
       (mkAccentNode (label group) (isStretchy group) shifty (base group)
                     (mode group)) options
     = mathmlBuilder group options) /\
  (forall group' : AccentNode,
     label group' = label group ->
     base group' = base group ->
     isStretchy group' = isStretchy group ->
     mode group' = mode group ->
     mathmlBuilder group' options = mathmlBuilder group options) /\
  (forall group' : AccentNode,
     defined_accent group -> defined_accent group' ->
     label group' = label group ->
     base group' = base group ->
     mode group' = mode group ->
     mathmlBuilder group' options = mathmlBuilder group options).
Proof.
  assert (Hfields : forall group' : AccentNode,
            label group' = label group ->
            base group' = base group ->
            isStretchy group' = isStretchy group ->
            mode group' = mode group ->
            mathmlBuilder group' options = mathmlBuilder group options).
  { intros group' Hlabel Hbase Hstretchy Hmode.
    unfold mathmlBuilder, accentNode.
    rewrite Hlabel, Hbase, Hstretchy, Hmode. reflexivity. }
  split; [reflexivity |]. split; [reflexivity |].
  split; [intros shifty; reflexivity |].
  split; [exact Hfields |].
  intros group' Hdef Hdef' Hlabel Hbase Hmode.
  apply Hfields; try assumption.
  apply defined_accent_isStretchy; assumption.
Qed.

End MathMLBuilderProperties.

(** ** The builders on sample trees *)

Section Samples.

Import Reference.
Local Open Scope Q_scope.

(** [\hat{x}]: not stretchy, shifty; [x] has no skew. *)
Example hat_x_flags : (isStretchy hat_x, isShifty hat_x) = (false, true).
Proof. reflexivity. Qed.

(** The skew of [f] is found under a styling-only wrapper, and is not
    looked for in a composite. *)
Example skew_under_wrapper :
  skew widehat_f (styled_node "color" f math) options = 1 # 10.
Proof. reflexivity. Qed.

Example skew_of_composite :
  skew widehat_f (composite_node "ordgroup" [f; x] math) options = 0%Q.
Proof. reflexivity. Qed.

(** [\textcircled{a}]: the clearance is the height of the base, 0.7, above
    the x-height 0.431; the offset is the skew. *)
Example textcircled_clearance :
  nonStretchy_clearance textcircled_a (layout (base textcircled_a)) options
  = 7 # 10.
Proof. reflexivity. Qed.

Example textcircled_left :
  left textcircled_a 0 (1 # 2) = 0%Q /\ left hat_x 0 (1 # 2) == - (1 # 4).
Proof. split; reflexivity. Qed.

(** The height of [\hat{x}^2] is the larger of the two heights, and the
    class "mbin" of the rerendered supsub has become "mord". *)
Example hat_x_squared_box :
  exists box grp',
    htmlBuilder hat_x_squared options = Ok (box, grp') /\
    domTree.height box == 1 /\
    domTree.classes box = ["mord"] /\
    domTree.classes (layout grp') = ["mbin"].
Proof. eexists _, _. repeat split; vm_compute; reflexivity. Qed.

Example mathml_hat_x :
  mathmlBuilder hat_x options =
  mathMLTree.mkMathNode "mover" (<["accent" := "true"]> ∅)
    [ mathMLTree.mkMathNode "mrow" ∅ [mathMLTree.mkTextNode "x"];
      mathMLTree.mkMathNode "mo" ∅ [mathMLTree.mkTextNode "\hat"] ].
Proof. reflexivity. Qed.

End Samples.

(** * Further properties *)

(** ** The pattern of the non-stretchy accents *)

Lemma prefix_true_iff (a s : string) :
  String.prefix a s = true <-> exists suf, s = (a ++ suf)%string.
Proof.
  revert a. induction s as [| d s IH]; intros [| c a]; cbn.
  - split; [intros _; exists EmptyString; reflexivity | reflexivity].
  - split; [discriminate | intros [suf Hsuf]; discriminate].
  - split; [intros _; eexists; reflexivity | reflexivity].
  - destruct (ascii_dec c d) as [-> | Hne].
    + rewrite IH. split; intros [suf Hsuf]; exists suf.
      * rewrite Hsuf. reflexivity.
      * change (String d s = String d (a ++ suf)%string) in Hsuf. congruence.
    + split; [discriminate | intros [suf Hsuf]].
      change (String d s = String c (a ++ suf)%string) in Hsuf. congruence.
Qed.

Lemma occurs_in_unfold (needle s : string) :
  occurs_in needle s =
  String.prefix needle s ||
  match s with
  | EmptyString => false
  | String _ rest => occurs_in needle rest
  end.
Proof. destruct s; reflexivity. Qed.

(** [occurs_in] finds exactly the strings that have [needle] between a
    prefix and a suffix. *)
Lemma occurs_in_iff (needle s : string) :
  occurs_in needle s = true <-> exists pre suf, s = (pre ++ needle ++ suf)%string.
Proof.
  split.
  - induction s as [| c s IH]; rewrite occurs_in_unfold; intros Hocc;
      apply orb_true_iff in Hocc; destruct Hocc as [Hpre | Hrest];
      try discriminate.
    + apply prefix_true_iff in Hpre. exists EmptyString. exact Hpre.
    + apply prefix_true_iff in Hpre. exists EmptyString. exact Hpre.
    + destruct (IH Hrest) as (pre & suf & ->).
      exists (String c pre), suf. reflexivity.
  - intros (pre & suf & ->). induction pre as [| c pre IH].
    + rewrite occurs_in_unfold. apply orb_true_iff. left.
      apply prefix_true_iff. exists suf. reflexivity.
    + change (String c pre ++ needle ++ suf)%string
        with (String c (pre ++ needle ++ suf)%string).
      rewrite occurs_in_unfold, IH. apply orb_true_r.
Qed.

Lemma regexp_test_iff (names : list string) (s : string) :
  regexp_test names s = true <->
  exists name pre suf, In name names /\ s = (pre ++ name ++ suf)%string.
Proof.
  unfold regexp_test. rewrite existsb_exists. split.
  - intros (name & Hin & Hocc). apply occurs_in_iff in Hocc.
    destruct Hocc as (pre & suf & ->). exists name, pre, suf. auto.
  - intros (name & pre & suf & Hin & ->). exists name.
    split; [exact Hin | apply occurs_in_iff; eauto].
Qed.

(** X1.  The pattern of the math-mode handler has no anchors: the node is
    non-stretchy exactly when the function name contains one of the eleven
    names of the pattern, anywhere. *)
Theorem math_handler_nonStretchy_iff (context : FunctionContext)
    (arg0 : ParseNode) :
  isStretchy (math_handler context arg0) = false <->
  exists name pre suf,
    In name NON_STRETCHY_ACCENT_REGEX /\
    funcName context = (pre ++ name ++ suf)%string.
Proof.
  rewrite <- regexp_test_iff. unfold math_handler; cbn [isStretchy].
  apply negb_false_iff.
Qed.

(** A longer name that merely contains [\hat] is classified with it. *)
Example contains_hat_nonStretchy :
  isStretchy (math_handler (mkContext "\hatch" math) Reference.x) = false.
Proof. reflexivity. Qed.

(** ** The wrapper of a stretchy accent *)

Lemma number_gtb_false (a b : number) : (a <= b)%Q -> number_gtb a b = false.
Proof.
  intros Hle. unfold number_gtb. apply negb_false_iff.
  apply Qle_bool_iff. exact Hle.
Qed.

(** The style is there exactly when the skew is positive, and then holds
    [width] and [marginLeft] only. *)
Lemma stretchy_wrapperStyle_iff (s : number) :
  (stretchy_wrapperStyle s = None <-> (s <= 0)%Q) /\
  ((0 < s)%Q ->
   exists style,
     stretchy_wrapperStyle s = Some style /\
     style !! "width" = Some (css_calc_full_minus_em (2 * s)%Q) /\
     style !! "marginLeft" = Some (css_em (2 * s)%Q) /\
     forall key, key <> "width" -> key <> "marginLeft" -> style !! key = None).
Proof.
  split; [split |].
  - intros Hnone. destruct (Qlt_le_dec 0 s) as [Hpos | Hle]; [| exact Hle].
    unfold stretchy_wrapperStyle in Hnone.
    rewrite (number_gtb_true _ _ Hpos) in Hnone. discriminate.
  - intros Hle. unfold stretchy_wrapperStyle.
    rewrite (number_gtb_false _ _ Hle). reflexivity.
  - intros Hpos. eexists. split; [apply stretchy_wrapperStyle_positive, Hpos |].
    split; [| split].
    + rewrite lookup_insert_ne by discriminate. apply lookup_insert_eq.
    + apply lookup_insert_eq.
    + intros key Hwidth Hmargin.
      rewrite !lookup_insert_ne by congruence. apply lookup_empty.
Qed.

Section PathProperties.

Context {Options : Type} `{HtmlCollaborators Options}.

(** X2.  In the box of a stretchy accent the wrapper of the accent (the
    layer of class "svg-align" stacked on the base) gets a style exactly
    when the skew is positive; a zero or negative skew leaves it undefined.
    When present the style has the two properties [width] and
    [marginLeft], both from twice the skew, and no other. *)
Theorem stretchy_wrapperStyle_cases (group : AccentNode) (b : ParseNode)
    (options : Options) :
  isStretchy group = true ->
  exists wrapperStyle,
    accentWrap group b options =
      makeSpan ["mord"; "accent"]
        [makeVList
           {| positionType := "firstBaseline";
              vlist_children :=
                [ vlist_elem (html_buildGroup b (havingCrampedStyle options))
                             None None;
                  vlist_elem (svgSpan group options) (Some ["svg-align"])
                             wrapperStyle ] |}
           options]
        (Some options) /\
    (wrapperStyle = None <-> (skew group b options <= 0)%Q) /\
    ((0 < skew group b options)%Q ->
     exists style,
       wrapperStyle = Some style /\
       style !! "width"
         = Some (css_calc_full_minus_em (2 * skew group b options)%Q) /\
       style !! "marginLeft" = Some (css_em (2 * skew group b options)%Q) /\
       forall key,
         key <> "width" -> key <> "marginLeft" -> style !! key = None).
Proof.
  intros Hstretchy.
  exists (stretchy_wrapperStyle (skew group b options)). split.
  - unfold accentWrap, stretchy_vlist. rewrite Hstretchy. reflexivity.
  - apply stretchy_wrapperStyle_iff.
Qed.

(** X3.  A stretchy accent that is not shifty, or whose base is not a
    character box, is stacked on the base with the class "svg-align" and
    without any wrapper style. *)
Theorem stretchy_without_shift (group : AccentNode) (b : ParseNode)
    (options : Options) :
  isStretchy group = true ->
  isShifty group = false \/ isCharacterBox b = false ->
  accentWrap group b options =
  makeSpan ["mord"; "accent"]
    [makeVList
       {| positionType := "firstBaseline";
          vlist_children :=
            [ vlist_elem (html_buildGroup b (havingCrampedStyle options))
                         None None;
              vlist_elem (svgSpan group options) (Some ["svg-align"]) None ] |}
       options]
    (Some options).
Proof.
  intros Hstretchy Hplain.
  assert (Hskew : skew group b options = 0%Q).
  { destruct Hplain as [Hshifty | Hbox];
      [apply skew_not_shifty | apply skew_not_character_box]; assumption. }
  unfold accentWrap, stretchy_vlist. rewrite Hstretchy, Hskew. reflexivity.
Qed.

(** Both handlers make every non-stretchy node shifty. *)
Lemma defined_nonStretchy_isShifty (group : AccentNode) :
  defined_accent group -> isStretchy group = false -> isShifty group = true.
Proof.
  intros [n m a Hin | n m a Hin] Hstretchy; [| reflexivity].
  rewrite math_handler_isShifty, Hstretchy. reflexivity.
Qed.

(** X4.  For a non-stretchy accent built by either handler the skew depends
    on the base alone: it is the skew of the innermost character when the
    base is a character box, and 0 otherwise. *)
Theorem defined_nonStretchy_skew (group : AccentNode) (b : ParseNode)
    (options : Options) :
  defined_accent group ->
  isStretchy group = false ->
  skew group b options =
  if isCharacterBox b
  then domTree.skew (html_buildGroup (getBaseElem b)
                                     (havingCrampedStyle options))
  else 0%Q.
Proof.
  intros Hdef Hstretchy.
  pose proof (defined_nonStretchy_isShifty group Hdef Hstretchy) as Hshifty.
  destruct (isCharacterBox b) eqn:Hbox.
  - apply skew_character_box; assumption.
  - apply skew_not_character_box; assumption.
Qed.

(** X5.  The builder writes the properties [left] and, for [\textcircled],
    [top] into the style of the accent body and appends the class
    "accent-full" for [\textcircled] and no class otherwise; every other
    style property and the children, height, depth and remaining fields are
    those of the span that [makeSpan] returned. *)
Theorem accentBody_frame (group : AccentNode) (s : number) (options : Options) :
  let span :=
    makeSpan ["accent-body"] [fst (accent_and_width group options)] None in
  let accentBody := nonStretchy_accentBody group s options in
  (forall key, key <> "left" -> key <> "top" ->
     domTree.style accentBody !! key = domTree.style span !! key) /\
  (label group <> "\textcircled" ->
   domTree.style accentBody !! "top" = domTree.style span !! "top") /\
  (label group = "\textcircled" ->
   domTree.style accentBody !! "top" = Some (css_literal ".2em")) /\
  (label group <> "\textcircled" ->
   domTree.classes accentBody = domTree.classes span) /\
  (label group = "\textcircled" ->
   domTree.classes accentBody = domTree.classes span ++ ["accent-full"]) /\
  domTree.children accentBody = domTree.children span /\
  domTree.height accentBody = domTree.height span /\
  domTree.depth accentBody = domTree.depth span /\
  domTree.maxFontSize accentBody = domTree.maxFontSize span /\
  domTree.value accentBody = domTree.value span /\
  domTree.italic accentBody = domTree.italic span /\
  domTree.skew accentBody = domTree.skew span /\
  domTree.width accentBody = domTree.width span.
Proof.
  cbn zeta. unfold nonStretchy_accentBody, accentFull.
  destruct (accent_and_width group options) as [accent width]. cbn [fst snd].
  destruct (String.eqb_spec (label group) "\textcircled") as [Hl | Hl].
  - split; [| split; [| split; [| split; [| split]]]].
    + intros key Hleft Htop. cbn.
      rewrite !lookup_insert_ne by congruence. reflexivity.
    + intros Hne. contradiction.
    + intros _. cbn. apply lookup_insert_eq.
    + intros Hne. contradiction.
    + intros _. reflexivity.
    + repeat split.
  - split; [| split; [| split; [| split; [| split]]]].
    + intros key Hleft Htop. cbn.
      rewrite lookup_insert_ne by congruence. reflexivity.
    + intros _. cbn. rewrite lookup_insert_ne by discriminate. reflexivity.
    + intros Heq. contradiction.
    + intros _. reflexivity.
    + intros Heq. contradiction.
    + repeat split.
Qed.

End PathProperties.

Lemma stretchy_wrapperStyle_cases_witness :
  exists style,
    accentWrap Reference.widehat_f Reference.f Reference.options =
      makeSpan ["mord"; "accent"]
        [makeVList
           {| positionType := "firstBaseline";
              vlist_children :=
                [ vlist_elem (Reference.layout Reference.f) None None;
                  vlist_elem (svgSpan Reference.widehat_f Reference.options)
                             (Some ["svg-align"]) (Some style) ] |}
           Reference.options]
        (Some Reference.options) /\
    style !! "marginLeft" = Some (css_em (2 * (1 # 10))%Q).
Proof.
  destruct (stretchy_wrapperStyle_cases Reference.widehat_f Reference.f
              Reference.options)
    as (wrapperStyle & Hbox & _ & Hpos); [reflexivity |].
  destruct Hpos as (style & -> & _ & Hmargin & _); [reflexivity |].
  exists style. split; [exact Hbox | exact Hmargin].
Defined.

Lemma stretchy_without_shift_witness :
  exists layers,
    accentWrap (math_handler (mkContext "\overrightarrow" math) Reference.f)
               Reference.f Reference.options
    = makeSpan ["mord"; "accent"]
        [makeVList (mkVListParam "firstBaseline" layers) Reference.options]
        (Some Reference.options) /\
    length layers = 2%nat.
Proof.
  eexists. split.
  - apply (stretchy_without_shift
             (math_handler (mkContext "\overrightarrow" math) Reference.f)
             Reference.f Reference.options).
    + reflexivity.
    + left. reflexivity.
  - reflexivity.
Defined.

Lemma defined_nonStretchy_skew_witness :
  skew Reference.textcircled_a Reference.f Reference.options = 1 # 10.
Proof.
  rewrite (defined_nonStretchy_skew Reference.textcircled_a Reference.f
             Reference.options).
  - reflexivity.
  - apply defined_text. do 11 right. left. reflexivity.
  - reflexivity.
Defined.

(** ** Calling the builder again *)

Section RepeatedCalls.

Context {Options : Type} `{HtmlCollaborators Options}.

(** X6.  The builder cannot be run twice on the same supsub node: after a
    call on a supsub around an accent whose base is not itself an accent,
    a second call on the same node raises, because its base is no longer an
    accent. *)
Theorem htmlBuilder_second_call_raises (group : AccentNode)
    (sup sub : option ParseNode) (m : Mode) (options : Options) :
  checkNodeType_accent (Some (base group)) = None ->
  exists box grp' message,
    htmlBuilder (supsub_node (Some (accent_to_node group)) sup sub m) options
      = Ok (box, grp') /\
    htmlBuilder grp' options = Throw message.
Proof.
  intros Hbase. eexists _, _, _.
  split; [apply htmlBuilder_supsub |].
  unfold htmlBuilder, unwrap. cbn [checkNodeType_supsub supsub_base].
  unfold assertNodeType_accent. rewrite Hbase. reflexivity.
Qed.

(** ** The patched supsub box *)

(** X8.  The box returned for a supsub around an accent is at least as high
    as the accent box and as the box of the supsub layout, and as high as
    one of the two. *)
Theorem supsub_height_bounds (group : AccentNode) (sup sub : option ParseNode)
    (m : Mode) (options : Options) :
  let supSubGroup :=
    html_buildGroup (supsub_node (Some (base group)) sup sub m) options in
  let accentBox := accentWrap group (base group) options in
  exists box grp',
    htmlBuilder (supsub_node (Some (accent_to_node group)) sup sub m) options
      = Ok (box, grp') /\
    (domTree.height accentBox <= domTree.height box)%Q /\
    (domTree.height supSubGroup <= domTree.height box)%Q /\
    (domTree.height box == domTree.height accentBox \/
     domTree.height box == domTree.height supSubGroup)%Q.
Proof.
  cbn zeta. eexists _, _.
  split; [apply htmlBuilder_supsub |].
  rewrite patch_supSubGroup_fields. cbn [domTree.height].
  split; [apply Q.le_max_l |]. split; [apply Q.le_max_r |].
  destruct (Q.max_dec (domTree.height (accentWrap group (base group) options))
              (domTree.height
                 (html_buildGroup (supsub_node (Some (base group)) sup sub m)
                                  options))); auto.
Qed.

(** X9.  The assignments to slot 0 never shorten the arrays: the returned
    box has as many children and classes as the supsub layout gave it, and
    one of each where the layout gave none. *)
Theorem supsub_patch_lengths (group : AccentNode) (sup sub : option ParseNode)
    (m : Mode) (options : Options) :
  let supSubGroup :=
    html_buildGroup (supsub_node (Some (base group)) sup sub m) options in
  exists box grp',
    htmlBuilder (supsub_node (Some (accent_to_node group)) sup sub m) options
      = Ok (box, grp') /\
    length (domTree.children box)
      = Nat.max 1 (length (domTree.children supSubGroup)) /\
    length (domTree.classes box)
      = Nat.max 1 (length (domTree.classes supSubGroup)).
Proof.
  cbn zeta. eexists _, _.
  split; [apply htmlBuilder_supsub |].
  rewrite patch_supSubGroup_fields. cbn [domTree.children domTree.classes].
  split.
  - destruct (domTree.children _); reflexivity.
  - destruct (domTree.classes _); reflexivity.
Qed.

(** ** The spacer *)

(** X10.  On the non-stretchy path the clearance never exceeds the height
    of the base, and with non-negative metrics the spacer is not positive:
    the accent body is pulled down onto the base, never pushed above it. *)
Theorem nonStretchy_kern_sign (group : AccentNode) (body : Box) (s : number)
    (options : Options) :
  exists size,
    vlist_children (nonStretchy_vlist group body s options) !! 1%nat
      = Some (vlist_kern size) /\
    (- size <= domTree.height body)%Q /\
    ((0 <= domTree.height body)%Q ->
     (0 <= fontMetrics_xHeight options)%Q ->
     (size <= 0)%Q).
Proof.
  eexists. split; [reflexivity |].
  assert (Hle : (nonStretchy_clearance group body options
                 <= domTree.height body)%Q).
  { unfold nonStretchy_clearance, clearance.
    destruct (accentFull group); [apply Qle_refl | apply Q.le_min_l]. }
  assert (Hpos : (0 <= domTree.height body)%Q ->
                 (0 <= fontMetrics_xHeight options)%Q ->
                 (0 <= nonStretchy_clearance group body options)%Q).
  { intros Hh Hx. unfold nonStretchy_clearance, clearance.
    destruct (accentFull group); [exact Hh | apply Q.min_glb; assumption]. }
  split.
  - rewrite Qopp_involutive. exact Hle.
  - intros Hh Hx. specialize (Hpos Hh Hx).
    apply (Qopp_le_compat 0) in Hpos. exact Hpos.
Qed.

End RepeatedCalls.

Lemma htmlBuilder_second_call_raises_witness :
  exists box grp' message,
    htmlBuilder Reference.hat_x_squared Reference.options = Ok (box, grp') /\
    htmlBuilder grp' Reference.options = Throw message.
Proof.
  apply (htmlBuilder_second_call_raises Reference.hat_x
           (Some (glyph_node "textord" "2" math)) None math Reference.options).
  reflexivity.
Defined.

Lemma nonStretchy_kern_sign_witness :
  exists size,
    vlist_children
      (nonStretchy_vlist Reference.hat_x (Reference.layout Reference.x) 0%Q
                         Reference.options) !! 1%nat
      = Some (vlist_kern size) /\
    (size <= 0)%Q.
Proof.
  destruct (nonStretchy_kern_sign Reference.hat_x
              (Reference.layout Reference.x) 0%Q Reference.options)
    as (size & Hkern & _ & Hsign).
  exists size. split; [exact Hkern |].
  apply Hsign; discriminate.
Defined.
